(** * simplefs: on-disk layout and extent index

    A shallow embedding of [simplefs.h]: the C object types the header
    declares, the size and offset computations its macros rely on, and the
    record values those types describe. *)

From stdpp Require Import numbers list strings sorting gmap.

Local Open Scope Z_scope.

(** ** C object layout *)

(** The header is compiled for Linux, whose ports use either the ILP32 or
    the LP64 data model.  Only object pointers differ between the two;
    [uint32_t] is four bytes, four-byte aligned, and [char] is one byte. *)
Inductive data_model := ILP32 | LP64.

Definition pointer_size (dm : data_model) : Z :=
  match dm with ILP32 => 4 | LP64 => 8 end.

(** The header is read in two ways: by user-space tools (no [__KERNEL__])
    and by the kernel module, where [LINUX_VERSION_CODE] selects fields. *)
Inductive build :=
| Userspace
| Kernel (LINUX_VERSION_CODE : Z).

(** [KERNEL_VERSION(a,b,c)] of <linux/version.h>. *)
Definition KERNEL_VERSION (a b c : Z) : Z :=
  Z.shiftl a 16 + Z.shiftl b 8 + (if 255 <? c then 255 else c).

Definition SIMPLEFS_AT_LEAST (bd : build) (major minor rev : Z) : bool :=
  match bd with
  | Userspace => false
  | Kernel code => KERNEL_VERSION major minor rev <=? code
  end.

Definition defined_KERNEL (bd : build) : bool :=
  match bd with Userspace => false | Kernel _ => true end.

#[warnings="-register-all"] Inductive ctype :=
| Tuint32
| Tchar
| Tpointer
| Tarray (elt : ctype) (len : Z)
| Tstruct (tag : string) (fields : list (string * ctype)).

Definition align_up (pos al : Z) : Z := ((pos + al - 1) / al) * al.

Section Layout.
Variable dm : data_model.

Fixpoint alignof (t : ctype) : Z :=
  match t with
  | Tuint32 => 4
  | Tchar => 1
  | Tpointer => pointer_size dm
  | Tarray elt _ => alignof elt
  | Tstruct _ fields =>
      foldr Z.max 1 (map (fun f => alignof (snd f)) fields)
  end.

(** Members are placed in declaration order, each at the next offset that
    is a multiple of its alignment; [place] returns the offset just past
    the last member. *)
Definition place (pos : Z) (sa : Z * Z) : Z :=
  align_up pos (snd sa) + fst sa.

Fixpoint sizeof (t : ctype) : Z :=
  match t with
  | Tuint32 => 4
  | Tchar => 1
  | Tpointer => pointer_size dm
  | Tarray elt len => sizeof elt * Z.max 0 len
  | Tstruct _ fields =>
      align_up
        (foldl place 0 (map (fun f => (sizeof (snd f), alignof (snd f))) fields))
        (alignof t)
  end.

(** Sum of the member sizes, i.e. the size a struct would have with no
    padding at all. *)
Definition members_size (t : ctype) : Z :=
  match t with
  | Tstruct _ fields => foldr Z.add 0 (map (fun f => sizeof (snd f)) fields)
  | _ => sizeof t
  end.

Fixpoint offset_from (pos : Z) (fields : list (string * ctype)) (id : string)
  : option Z :=
  match fields with
  | [] => None
  | (name, ty) :: rest =>
      let here := align_up pos (alignof ty) in
      if String.eqb name id then Some here
      else offset_from (here + sizeof ty) rest id
  end.

Definition offsetof (t : ctype) (id : string) : option Z :=
  match t with
  | Tstruct _ fields => offset_from 0 fields id
  | _ => None
  end.

Fixpoint type_from (fields : list (string * ctype)) (id : string)
  : option ctype :=
  match fields with
  | [] => None
  | (name, ty) :: rest =>
      if String.eqb name id then Some ty else type_from rest id
  end.

Definition field_type (t : ctype) (id : string) : option ctype :=
  match t with
  | Tstruct _ fields => type_from fields id
  | _ => None
  end.

(** Byte offset of element [i] of an array member. *)
Definition element_offset (t : ctype) (id : string) (i : Z) : option Z :=
  match offsetof t id, field_type t id with
  | Some base, Some (Tarray elt _) => Some (base + i * sizeof elt)
  | _, _ => None
  end.
End Layout.

Definition field_names (t : ctype) : list string :=
  match t with
  | Tstruct _ fields => map fst fields
  | _ => []
  end.

Definition field_types (t : ctype) : list ctype :=
  match t with
  | Tstruct _ fields => map snd fields
  | _ => []
  end.

(** Integer conversions used by the macros: [size_t] is as wide as a pointer
    and unsigned, [uint64_t] is 64 bits. *)
Definition to_size_t (dm : data_model) (z : Z) : Z :=
  z mod 2 ^ (8 * pointer_size dm).

Definition to_uint64 (z : Z) : Z := z mod 2 ^ 64.

(** ** The header's constants *)

(** [0xDEADCELL] is the hexadecimal constant [0xDEADCE] carrying the
    integer suffix [LL] (type [long long]). *)
Definition SIMPLEFS_MAGIC : Z := 0xDEADCE.

Definition SIMPLEFS_SB_BLOCK_NR : Z := 0.

Definition SIMPLEFS_BLOCK_SIZE : Z := Z.shiftl 1 12.

Definition SIMPLEFS_MAX_BLOCKS_PER_EXTENT : Z := 8.

Definition SIMPLEFS_MAX_SIZES_PER_EXTENT : Z :=
  SIMPLEFS_MAX_BLOCKS_PER_EXTENT * SIMPLEFS_BLOCK_SIZE.

Definition SIMPLEFS_FILENAME_LEN : Z := 255.

(** ** The header's structures *)

Definition struct_simplefs_inode : ctype :=
  Tstruct "simplefs_inode"
    [ ("i_mode", Tuint32);
      ("i_uid", Tuint32);
      ("i_gid", Tuint32);
      ("i_size", Tuint32);
      ("i_ctime", Tuint32);
      ("i_atime", Tuint32);
      ("i_mtime", Tuint32);
      ("i_blocks", Tuint32);
      ("i_nlink", Tuint32);
      ("ei_block", Tuint32);
      ("i_data", Tarray Tchar 32) ].

Definition struct_simplefs_extent : ctype :=
  Tstruct "simplefs_extent"
    [ ("ee_block", Tuint32);
      ("ee_len", Tuint32);
      ("ee_start", Tuint32);
      ("nr_files", Tuint32) ].

Definition struct_simplefs_file : ctype :=
  Tstruct "simplefs_file"
    [ ("inode", Tuint32);
      ("nr_blk", Tuint32);
      ("filename", Tarray Tchar SIMPLEFS_FILENAME_LEN) ].

Section Macros.
Variable dm : data_model.

Definition SIMPLEFS_MAX_EXTENTS : Z :=
  to_size_t dm (SIMPLEFS_BLOCK_SIZE - sizeof dm Tuint32)
  / sizeof dm struct_simplefs_extent.

Definition SIMPLEFS_MAX_FILESIZE : Z :=
  to_uint64
    (to_uint64 (to_uint64 SIMPLEFS_MAX_BLOCKS_PER_EXTENT * SIMPLEFS_BLOCK_SIZE)
     * SIMPLEFS_MAX_EXTENTS).

Definition SIMPLEFS_FILES_PER_BLOCK : Z :=
  SIMPLEFS_BLOCK_SIZE / sizeof dm struct_simplefs_file.

Definition SIMPLEFS_FILES_PER_EXT : Z :=
  to_size_t dm (SIMPLEFS_FILES_PER_BLOCK * SIMPLEFS_MAX_BLOCKS_PER_EXTENT).

Definition SIMPLEFS_MAX_SUBFILES : Z :=
  to_size_t dm (SIMPLEFS_FILES_PER_EXT * SIMPLEFS_MAX_EXTENTS).

Definition SIMPLEFS_INODES_PER_BLOCK : Z :=
  SIMPLEFS_BLOCK_SIZE / sizeof dm struct_simplefs_inode.

Definition struct_simplefs_file_ei_block : ctype :=
  Tstruct "simplefs_file_ei_block"
    [ ("nr_files", Tuint32);
      ("extents", Tarray struct_simplefs_extent SIMPLEFS_MAX_EXTENTS) ].

Definition struct_simplefs_dir_block : ctype :=
  Tstruct "simplefs_dir_block"
    [ ("nr_files", Tuint32);
      ("files", Tarray struct_simplefs_file SIMPLEFS_FILES_PER_BLOCK) ].
End Macros.

Definition struct_simplefs_sb_info (bd : build) : ctype :=
  Tstruct "simplefs_sb_info"
    ([ ("magic", Tuint32);
       ("nr_blocks", Tuint32);
       ("nr_inodes", Tuint32);
       ("nr_istore_blocks", Tuint32);
       ("nr_ifree_blocks", Tuint32);
       ("nr_bfree_blocks", Tuint32);
       ("nr_free_inodes", Tuint32);
       ("nr_free_blocks", Tuint32);
       ("ifree_bitmap", Tpointer);
       ("bfree_bitmap", Tpointer) ]
     ++ (if defined_KERNEL bd then
           [ ("journal", Tpointer); ("s_journal_bdev", Tpointer) ]
           ++ (if SIMPLEFS_AT_LEAST bd 6 9 0 then
                 [ ("s_journal_bdev_file", Tpointer) ]
               else if SIMPLEFS_AT_LEAST bd 6 7 0 then
                 [ ("s_journal_bdev_handle", Tpointer) ]
               else [])
         else [])).

(** ** Record values *)

(** One [struct simplefs_extent]; every field is a [uint32_t]. *)
Record simplefs_extent := {
  ee_block : Z;
  ee_len : Z;
  ee_start : Z;
  nr_files : Z
}.

(** One [struct simplefs_file_ei_block]: the leading counter and the slots
    of [extents] in array order.  (The counter is the struct's own
    [nr_files]; the name is prefixed to keep it apart from the extent's.) *)
Record simplefs_file_ei_block := {
  ei_nr_files : Z;
  extents : list simplefs_extent
}.

(** The [uint32_t] members of [struct simplefs_sb_info]. *)
Record simplefs_sb_info := {
  magic : Z;
  nr_blocks : Z;
  nr_inodes : Z;
  nr_istore_blocks : Z;
  nr_ifree_blocks : Z;
  nr_bfree_blocks : Z;
  nr_free_inodes : Z;
  nr_free_blocks : Z
}.

Inductive error :=
| CorruptSuperblock
| InconsistentBitmap
| NoSpace
| FileTooLarge
| DirectoryFull
| NotFound
| DoubleFree.

Inductive result (A : Type) :=
| Ok (a : A)
| Err (e : error).
Arguments Ok {A} a.
Arguments Err {A} e.

(** ** Extent search *)

Definition covers (e : simplefs_extent) (iblock : Z) : bool :=
  (ee_block e <=? iblock) && (iblock <? ee_block e + ee_len e).

Definition physical (e : simplefs_extent) (iblock : Z) : Z :=
  ee_start e + (iblock - ee_block e).

(** Modelled from the spec: the body of [simplefs_ext_search], which the
    header only declares.  Section 4.4: scan the extent array in order; for
    the first extent whose range [ee_block, ee_block+ee_len) holds the
    logical block, return [ee_start + (logical_block - ee_block)];
    otherwise NotFound (here [None]). *)
Fixpoint ext_scan (es : list simplefs_extent) (iblock : Z) : option Z :=
  match es with
  | [] => None
  | e :: rest =>
      if covers e iblock then Some (physical e iblock)
      else ext_scan rest iblock
  end.

Definition simplefs_ext_search (index : simplefs_file_ei_block) (iblock : Z)
  : option Z :=
  ext_scan (extents index) iblock.

(** Well-formed extent arrays: sorted by logical start, and no logical
    block lies in two extents. *)
Definition sorted_by_start (es : list simplefs_extent) : Prop :=
  StronglySorted (fun a b => ee_block a <= ee_block b) es.

Definition disjoint (a b : simplefs_extent) : Prop :=
  forall blk : Z, covers a blk = true -> covers b blk = false.

Definition non_overlapping (es : list simplefs_extent) : Prop :=
  ForallOrdPairs disjoint es.

Definition well_formed (es : list simplefs_extent) : Prop :=
  sorted_by_start es /\ non_overlapping es.

(** ** Block allocation and extent growth *)

(** Modelled from the spec: the block half of the Bitmap Allocator of
    section 4.1, which the header does not contain.  A bit that is set marks
    a block in use; [free_count] is the free-block counter. *)
Record allocator := {
  block_bits : list bool;
  free_count : Z
}.

Fixpoint run_free (bits : list bool) (n : nat) : bool :=
  match n with
  | O => true
  | S n' =>
      match bits with
      | false :: rest => run_free rest n'
      | _ => false
      end
  end.

Fixpoint first_fit (bits : list bool) (start n : nat) : option nat :=
  match bits with
  | [] => None
  | _ :: rest =>
      if run_free bits n then Some start else first_fit rest (S start) n
  end.

Definition set_run (bits : list bool) (start n : nat) : list bool :=
  take start bits ++ replicate n true ++ drop (start + n) bits.

(** Modelled from the spec: [allocate_blocks(n)] of section 4.1, first-fit
    for [n] contiguous free bits, which are set, and the free-block counter
    drops by [n]; [NoSpace] when no such run exists. *)
Definition allocate_blocks (n : nat) (a : allocator) : result (nat * allocator) :=
  match first_fit (block_bits a) 0 n with
  | None => Err NoSpace
  | Some start =>
      Ok (start, {| block_bits := set_run (block_bits a) start n;
                    free_count := free_count a - Z.of_nat n |})
  end.

(** Up to [n] contiguous blocks, fewer if no run of that length is free. *)
Fixpoint allocate_upto (n : nat) (a : allocator)
  : result (nat * nat * allocator) :=
  match n with
  | O => Err NoSpace
  | S n' =>
      match allocate_blocks n a with
      | Ok (start, a') => Ok (n, start, a')
      | Err _ => allocate_upto n' a
      end
  end.

Definition empty_index : simplefs_file_ei_block :=
  {| ei_nr_files := 0; extents := [] |}.

Section Grow.
Variable dm : data_model.

(** Modelled from the spec: [grow] of section 4.4, absent from the
    header.  A logical block already mapped is returned as it is;
    otherwise, unless the array is at capacity ([FileTooLarge]), up to
    [SIMPLEFS_MAX_BLOCKS_PER_EXTENT] contiguous blocks are taken from the
    allocator and a new extent is appended, the index count going up by
    one. *)
Definition grow (a : allocator) (index : simplefs_file_ei_block)
    (new_logical_block : Z)
  : result (Z * allocator * simplefs_file_ei_block) :=
  match simplefs_ext_search index new_logical_block with
  | Some phys => Ok (phys, a, index)
  | None =>
      if SIMPLEFS_MAX_EXTENTS dm <=? Z.of_nat (length (extents index))
      then Err FileTooLarge
      else
        match allocate_upto (Z.to_nat SIMPLEFS_MAX_BLOCKS_PER_EXTENT) a with
        | Err e => Err e
        | Ok (len, start, a') =>
            Ok (Z.of_nat start, a',
                {| ei_nr_files := ei_nr_files index + 1;
                   extents := extents index ++
                     [ {| ee_block := new_logical_block;
                          ee_len := Z.of_nat len;
                          ee_start := Z.of_nat start;
                          nr_files := 0 |} ] |})
        end
  end.

End Grow.


(** ** Mount *)

Section Mount.
(** The comparison of the stored block and inode totals with the bitmap
    sizes derived from them; its formula lies outside the header. *)
Variable totals_agree : simplefs_sb_info -> bool.

(** Modelled from the spec: the superblock check of [simplefs_fill_super]
    (section 4.2), which the header only declares.  Given the record
    loaded from block [SIMPLEFS_SB_BLOCK_NR], mount fails with
    [CorruptSuperblock] on a magic mismatch or when the totals disagree
    with the derived bitmap sizes, and otherwise accepts the volume. *)
Definition simplefs_fill_super (sb : simplefs_sb_info)
  : result simplefs_sb_info :=
  if negb (magic sb =? SIMPLEFS_MAGIC) then Err CorruptSuperblock
  else if negb (totals_agree sb) then Err CorruptSuperblock
  else Ok sb.
End Mount.

(** One reading of the derived bitmap sizes, used on the sample volumes:
    one bit per inode or block, rounded up to whole blocks. *)
Definition bitmap_blocks (total : Z) : Z :=
  (total + 8 * SIMPLEFS_BLOCK_SIZE - 1) / (8 * SIMPLEFS_BLOCK_SIZE).

Definition totals_match_bitmaps (sb : simplefs_sb_info) : bool :=
  (nr_ifree_blocks sb =? bitmap_blocks (nr_inodes sb))
  && (nr_bfree_blocks sb =? bitmap_blocks (nr_blocks sb)).

(** ** Layouts as the format description words them *)

(** Section 6 reads the directory block as entries of 4 + 4 + 255 bytes
    packed one after another behind the 4-byte counter. *)
Definition dir_entries_packed (dm : data_model) : Prop :=
  sizeof dm struct_simplefs_file = 4 + 4 + 255 /\
  forall i : Z,
    0 <= i < SIMPLEFS_FILES_PER_BLOCK dm ->
    element_offset dm (struct_simplefs_dir_block dm) "files" i
    = Some (4 + i * (4 + 4 + 255)).

(** The magic, the totals, the three region sizes and the two free
    counters. *)
Definition sb_counters : list string :=
  [ "magic"; "nr_blocks"; "nr_inodes"; "nr_istore_blocks";
    "nr_ifree_blocks"; "nr_bfree_blocks"; "nr_free_inodes";
    "nr_free_blocks" ].

(** Section 3 reads the superblock record as these members and no other. *)
Definition sb_only_counters (bd : build) : Prop :=
  field_names (struct_simplefs_sb_info bd) = sb_counters.

(** ** Sample volumes *)

Definition two_extents : simplefs_file_ei_block :=
  {| ei_nr_files := 2;
     extents :=
       [ {| ee_block := 0; ee_len := 8; ee_start := 100; nr_files := 0 |};
         {| ee_block := 8; ee_len := 4; ee_start := 200; nr_files := 0 |} ] |}.

(** Blocks 0, 1 and 5 in use; the longest free run is blocks 2 to 4. *)
Definition fragmented : allocator :=
  {| block_bits := [true; true; false; false; false; true; false; false];
     free_count := 5 |}.


Definition sb_good : simplefs_sb_info :=
  {| magic := 0xDEADCE; nr_blocks := 51200; nr_inodes := 51240;
     nr_istore_blocks := 915; nr_ifree_blocks := 2; nr_bfree_blocks := 2;
     nr_free_inodes := 51239; nr_free_blocks := 50278 |}.

Definition sb_bad_magic : simplefs_sb_info :=
  {| magic := 0xDEADBEEF; nr_blocks := 51200; nr_inodes := 51240;
     nr_istore_blocks := 915; nr_ifree_blocks := 2; nr_bfree_blocks := 2;
     nr_free_inodes := 51239; nr_free_blocks := 50278 |}.

(** ** Directories *)

(** One [struct simplefs_file]. *)
Record simplefs_file := {
  inode : Z;
  nr_blk : Z;
  filename : string
}.

(** One [struct simplefs_dir_block]: its counter and the slots of [files];
    the live entries are the first [blk_nr_files] slots.  (The counter is
    the struct's own [nr_files], prefixed as for the index block.) *)
Record simplefs_dir_block := {
  blk_nr_files : Z;
  files : list simplefs_file
}.

Definition empty_dir_block : simplefs_dir_block :=
  {| blk_nr_files := 0; files := [] |}.

Definition live_entries (blk : simplefs_dir_block) : list simplefs_file :=
  take (Z.to_nat (blk_nr_files blk)) (files blk).

(** What the Directory Block Manager works on: the allocator, the extent
    index of the directory inode, and the directory blocks written so far,
    by physical block number. *)
Record dir_state := {
  dir_alloc : allocator;
  dir_index : simplefs_file_ei_block;
  dir_blocks : gmap Z simplefs_dir_block
}.

(** The physical blocks an extent covers, in order. *)
Definition extent_blocks (e : simplefs_extent) : list Z :=
  map (fun k => ee_start e + k) (seqZ 0 (ee_len e)).

(** The directory blocks that exist: covered by an extent and written. *)
Definition existing_blocks (blocks : gmap Z simplefs_dir_block)
    (es : list simplefs_extent) : list Z :=
  filter (fun b => is_Some (blocks !! b)) (flat_map extent_blocks es).

(** The extent-level counters of an index, added up. *)
Definition extent_entries (es : list simplefs_extent) : Z :=
  foldr (fun e total => nr_files e + total) 0 es.

Definition count_entry (delta : Z) (e : simplefs_extent) : simplefs_extent :=
  {| ee_block := ee_block e;
     ee_len := ee_len e;
     ee_start := ee_start e;
     nr_files := nr_files e + delta |}.

(** An extent with its counter replaced. *)
Definition with_nr_files (f : simplefs_extent -> Z) (e : simplefs_extent)
  : simplefs_extent :=
  {| ee_block := ee_block e;
     ee_len := ee_len e;
     ee_start := ee_start e;
     nr_files := f e |}.

(** Array position of the first extent that holds a logical block (the
    array length when none does). *)
Fixpoint ext_position (es : list simplefs_extent) (iblock : Z) : nat :=
  match es with
  | [] => O
  | e :: rest => if covers e iblock then O else S (ext_position rest iblock)
  end.

Definition write_entry (entry : simplefs_file) (blk : simplefs_dir_block)
  : simplefs_dir_block :=
  {| blk_nr_files := blk_nr_files blk + 1;
     files := live_entries blk ++ [entry] |}.

(** Removal by compaction: the last live entry moves into slot [j]. *)
Definition remove_slot (j : nat) (blk : simplefs_dir_block)
  : simplefs_dir_block :=
  {| blk_nr_files := blk_nr_files blk - 1;
     files :=
       match last (live_entries blk) with
       | Some moved =>
           take (length (live_entries blk) - 1)
                (<[j := moved]> (live_entries blk))
       | None => live_entries blk
       end |}.

Fixpoint find_in_blocks (blocks : gmap Z simplefs_dir_block) (bs : list Z)
    (name : string) : option (Z * nat) :=
  match bs with
  | [] => None
  | b :: rest =>
      match blocks !! b with
      | Some blk =>
          match list_find (fun f => filename f = name) (live_entries blk) with
          | Some (j, _) => Some (b, j)
          | None => find_in_blocks blocks rest name
          end
      | None => find_in_blocks blocks rest name
      end
  end.

Fixpoint find_entry (blocks : gmap Z simplefs_dir_block)
    (es : list simplefs_extent) (pos : nat) (name : string)
  : option (nat * Z * nat) :=
  match es with
  | [] => None
  | e :: rest =>
      match find_in_blocks blocks (extent_blocks e) name with
      | Some (b, j) => Some (pos, b, j)
      | None => find_entry blocks rest (S pos) name
      end
  end.

(** Modelled from the spec: [remove_entry] of section 4.5, absent from the
    header.  The entry is located by scanning the directory blocks in extent
    order; it is removed by compaction, and the counter of its block and of
    the extent covering that block go down by one.  [NotFound] when no live
    entry has the name. *)
Definition remove_entry (st : dir_state) (name : string) : result dir_state :=
  match find_entry (dir_blocks st) (extents (dir_index st)) 0 name with
  | None => Err NotFound
  | Some (pos, b, j) =>
      Ok {| dir_alloc := dir_alloc st;
            dir_index :=
              {| ei_nr_files := ei_nr_files (dir_index st);
                 extents := alter (count_entry (-1)) pos (extents (dir_index st)) |};
            dir_blocks := alter (remove_slot j) b (dir_blocks st) |}
  end.

(** Modelled from the spec: [lookup] of section 4.5, a linear scan across
    the directory blocks in extent order. *)
Definition lookup_entry (st : dir_state) (name : string) : result Z :=
  match find_entry (dir_blocks st) (extents (dir_index st)) 0 name with
  | None => Err NotFound
  | Some (_, b, j) =>
      match dir_blocks st !! b ≫= (fun blk => live_entries blk !! j) with
      | Some f => Ok (inode f)
      | None => Err NotFound
      end
  end.

Inductive inode_kind := RegularFile | Directory.

Section Directories.
Variable dm : data_model.

Definition has_free_slot (blocks : gmap Z simplefs_dir_block) (b : Z) : bool :=
  match blocks !! b with
  | Some blk => blk_nr_files blk <? SIMPLEFS_FILES_PER_BLOCK dm
  | None => false
  end.

Fixpoint first_free_block (blocks : gmap Z simplefs_dir_block) (bs : list Z)
  : option Z :=
  match bs with
  | [] => None
  | b :: rest =>
      if has_free_slot blocks b then Some b else first_free_block blocks rest
  end.

Fixpoint find_slot (blocks : gmap Z simplefs_dir_block)
    (es : list simplefs_extent) (pos : nat) : option (nat * Z) :=
  match es with
  | [] => None
  | e :: rest =>
      match first_free_block blocks (extent_blocks e) with
      | Some b => Some (pos, b)
      | None => find_slot blocks rest (S pos)
      end
  end.

(** Modelled from the spec: [add_entry] of section 4.5, absent from the
    header.  [DirectoryFull] once the extent-level counters add up to the
    capacity [SIMPLEFS_MAX_SUBFILES].  Otherwise the existing directory
    blocks are scanned in extent order for one with a free slot; if there is
    none, [grow] is asked for the next logical block, whose entry counter is
    zero-initialised.  The entry is written into the first free slot, and
    the counter of that block and of the extent covering it go up by one. *)
Definition add_entry (st : dir_state) (name : string) (target_ino : Z)
  : result dir_state :=
  let entry := {| inode := target_ino; nr_blk := 1; filename := name |} in
  let index := dir_index st in
  if SIMPLEFS_MAX_SUBFILES dm <=? extent_entries (extents index)
  then Err DirectoryFull
  else
    match find_slot (dir_blocks st) (extents index) 0 with
    | Some (pos, b) =>
        Ok {| dir_alloc := dir_alloc st;
              dir_index :=
                {| ei_nr_files := ei_nr_files index;
                   extents := alter (count_entry 1) pos (extents index) |};
              dir_blocks := alter (write_entry entry) b (dir_blocks st) |}
    | None =>
        let next :=
          Z.of_nat (length (existing_blocks (dir_blocks st) (extents index))) in
        match grow dm (dir_alloc st) index next with
        | Err e => Err e
        | Ok (phys, a', index') =>
            Ok {| dir_alloc := a';
                  dir_index :=
                    {| ei_nr_files := ei_nr_files index';
                       extents :=
                         alter (count_entry 1)
                               (ext_position (extents index') next)
                               (extents index') |};
                  dir_blocks :=
                    <[phys := write_entry entry empty_dir_block]> (dir_blocks st) |}
        end
    end.

(** The extent indexes the operations give an inode of each kind: the empty
    index of a new inode; [grow], for file data and directory data alike;
    and, for a directory only, the entry operations. *)
Inductive index_of : inode_kind -> simplefs_file_ei_block -> Prop :=
| index_new kind : index_of kind empty_index
| index_grow kind a index blk phys a' index' :
    index_of kind index ->
    grow dm a index blk = Ok (phys, a', index') ->
    index_of kind index'
| index_add st name target_ino st' :
    index_of Directory (dir_index st) ->
    add_entry st name target_ino = Ok st' ->
    index_of Directory (dir_index st')
| index_remove st name st' :
    index_of Directory (dir_index st) ->
    remove_entry st name = Ok st' ->
    index_of Directory (dir_index st').
End Directories.

(** A new directory on the fragmented volume, and the same after one
    entry has been added. *)
Definition dir_new : dir_state :=
  {| dir_alloc := fragmented; dir_index := empty_index; dir_blocks := ∅ |}.

Definition dir_one_entry : dir_state :=
  {| dir_alloc :=
       {| block_bits := [true; true; true; true; true; true; false; false];
          free_count := 2 |};
     dir_index :=
       {| ei_nr_files := 1;
          extents :=
            [ {| ee_block := 0; ee_len := 3; ee_start := 2; nr_files := 1 |} ] |};
     dir_blocks :=
       {[ 2 := {| blk_nr_files := 1;
                  files := [ {| inode := 7; nr_blk := 1; filename := "a" |} ] |} ]} |}.

(** ** Further declarations of the header *)

(** [struct simplefs_inode_info], the in-memory inode of the kernel module.
    [struct inode] belongs to the kernel, not to the header, and is a
    parameter. *)
Definition struct_simplefs_inode_info (struct_inode : ctype) : ctype :=
  Tstruct "simplefs_inode_info"
    [ ("ei_block", Tuint32);
      ("i_data", Tarray Tchar 32);
      ("vfs_inode", struct_inode) ].

(** Address of a member of the object at [base], as in [&base->member]. *)
Definition member_address (dm : data_model) (base : Z) (type : ctype)
    (member : string) : option Z :=
  match offsetof dm type member with
  | Some off => Some (base + off)
  | None => None
  end.

(** [container_of(ptr, type, member)] of <linux/kernel.h>: the address of
    the object of [type] whose [member] lies at [ptr]. *)
Definition container_of (dm : data_model) (ptr : Z) (type : ctype)
    (member : string) : option Z :=
  match offsetof dm type member with
  | Some off => Some (ptr - off)
  | None => None
  end.

Definition SIMPLEFS_INODE (dm : data_model) (struct_inode : ctype) (inode : Z)
  : option Z :=
  container_of dm inode (struct_simplefs_inode_info struct_inode) "vfs_inode".

Definition has_member (t : ctype) (id : string) : bool :=
  existsb (String.eqb id) (field_names t).

(** The two block structures with the array length left open; the header
    fixes it to [SIMPLEFS_MAX_EXTENTS] and [SIMPLEFS_FILES_PER_BLOCK]. *)
Definition ei_block_with (n : Z) : ctype :=
  Tstruct "simplefs_file_ei_block"
    [ ("nr_files", Tuint32);
      ("extents", Tarray struct_simplefs_extent n) ].

Definition dir_block_with (n : Z) : ctype :=
  Tstruct "simplefs_dir_block"
    [ ("nr_files", Tuint32);
      ("files", Tarray struct_simplefs_file n) ].

(** The structures whose images are written to disk blocks as they are. *)
Definition on_disk_structs (dm : data_model) : list ctype :=
  [ struct_simplefs_inode;
    struct_simplefs_extent;
    struct_simplefs_file;
    struct_simplefs_file_ei_block dm;
    struct_simplefs_dir_block dm ].

Definition member_offsets (dm : data_model) (t : ctype) : list (option Z) :=
  map (offsetof dm t) (field_names t).

(** Goals about sizes and offsets are closed by evaluation in each data
    model. *)
Ltac by_layout dm := destruct dm; vm_compute; repeat split; congruence.

(** * Properties *)

(** ** Alignment *)

Lemma align_up_ge (pos al : Z) : 0 < al -> pos <= align_up pos al.
Proof.
  intros Hal. unfold align_up.
  pose proof (Z.div_mod (pos + al - 1) al ltac:(lia)) as Hdm.
  pose proof (Z.mod_pos_bound (pos + al - 1) al Hal) as Hb.
  nia.
Qed.

Lemma align_up_lt (pos al : Z) : 0 < al -> align_up pos al < pos + al.
Proof.
  intros Hal. unfold align_up.
  pose proof (Z.div_mod (pos + al - 1) al ltac:(lia)) as Hdm.
  pose proof (Z.mod_pos_bound (pos + al - 1) al Hal) as Hb.
  nia.
Qed.

Lemma align_up_divide (pos al : Z) : (al | align_up pos al).
Proof. unfold align_up. apply Z.divide_factor_r. Qed.

Lemma align_up_aligned (pos al : Z) : 0 < al -> (al | pos) -> align_up pos al = pos.
Proof.
  intros Hal [k ->]. unfold align_up.
  replace (k * al + al - 1) with (al - 1 + k * al) by lia.
  rewrite Z.div_add by lia. rewrite Z.div_small by lia. lia.
Qed.

Lemma alignof_pos (dm : data_model) (t : ctype) : 0 < alignof dm t.
Proof.
  induction t as [| | |elt IH len|tag fields]; simpl; try lia.
  - destruct dm; reflexivity.
  - induction fields as [|f fs IHfs]; simpl; lia.
Qed.

(** ** Sizes and capacities *)

(** C1: with the 4096-byte block and 8 blocks per extent, the extent array
    has [(4096 - 4) / 16 = 255] slots and the largest file is
    [8 * 4096 * 255 = 8355840] bytes. *)
Theorem max_extents_and_filesize (dm : data_model) :
  SIMPLEFS_BLOCK_SIZE = 4096 /\
  SIMPLEFS_MAX_BLOCKS_PER_EXTENT = 8 /\
  SIMPLEFS_MAX_EXTENTS dm = (4096 - 4) / 16 /\
  SIMPLEFS_MAX_EXTENTS dm = 255 /\
  SIMPLEFS_MAX_FILESIZE dm = 8 * 4096 * 255 /\
  SIMPLEFS_MAX_FILESIZE dm = 8355840.
Proof. by_layout dm. Qed.

(** C9: the inode record is ten 4-byte fields and a 32-byte buffer, 72
    bytes, and a block holds [4096 / 72 = 56] of them (a 57th does not
    fit). *)
Theorem inodes_per_block (dm : data_model) :
  field_types struct_simplefs_inode
    = replicate 10 Tuint32 ++ [Tarray Tchar 32] /\
  sizeof dm struct_simplefs_inode = 10 * 4 + 32 /\
  sizeof dm struct_simplefs_inode = 72 /\
  SIMPLEFS_INODES_PER_BLOCK dm
    = SIMPLEFS_BLOCK_SIZE / sizeof dm struct_simplefs_inode /\
  SIMPLEFS_INODES_PER_BLOCK dm = 56 /\
  56 * sizeof dm struct_simplefs_inode <= SIMPLEFS_BLOCK_SIZE
    < 57 * sizeof dm struct_simplefs_inode.
Proof. by_layout dm. Qed.

(** C10: the members of a directory entry add up to 263 bytes, alignment
    rounds the entry up to 264, so a block holds [4096 / 264 = 15] entries
    and a directory at most [15 * 8 * 255 = 30600]. *)
Theorem files_per_block_and_max_subfiles (dm : data_model) :
  members_size dm struct_simplefs_file = 263 /\
  alignof dm struct_simplefs_file = 4 /\
  sizeof dm struct_simplefs_file = align_up 263 4 /\
  sizeof dm struct_simplefs_file = 264 /\
  SIMPLEFS_FILES_PER_BLOCK dm = 4096 / 264 /\
  SIMPLEFS_FILES_PER_BLOCK dm = 15 /\
  SIMPLEFS_MAX_SUBFILES dm = 15 * 8 * 255 /\
  SIMPLEFS_MAX_SUBFILES dm = 30600.
Proof. by_layout dm. Qed.

(** ** Extent index block *)

Lemma ei_block_element_offset (dm : data_model) (i : Z) :
  element_offset dm (struct_simplefs_file_ei_block dm) "extents" i
  = Some (4 + i * 16).
Proof. destruct dm; reflexivity. Qed.

(** ** Fit within one block *)

Lemma sb_info_size_cases (dm : data_model) (bd : build) :
  In (sizeof dm (struct_simplefs_sb_info bd)) [40; 48; 52; 56; 64; 72].
Proof.
  destruct bd as [|code]; unfold struct_simplefs_sb_info; simpl.
  - destruct dm; vm_compute; tauto.
  - destruct (KERNEL_VERSION 6 9 0 <=? code);
      [|destruct (KERNEL_VERSION 6 7 0 <=? code)];
      destruct dm; vm_compute; tauto.
Qed.

(** C4: every record type of the header has a size fixed by its declaration
    (it depends on no record content) and that size is at most the 4096
    bytes of a block: the superblock record in every build, the inode
    record, the extent index block and the directory block. *)
Theorem records_fit_in_block (dm : data_model) (bd : build) :
  sizeof dm (struct_simplefs_sb_info bd) <= SIMPLEFS_BLOCK_SIZE /\
  sizeof dm struct_simplefs_inode = 72 /\
  sizeof dm struct_simplefs_inode <= SIMPLEFS_BLOCK_SIZE /\
  sizeof dm (struct_simplefs_file_ei_block dm) = 4084 /\
  sizeof dm (struct_simplefs_file_ei_block dm) <= SIMPLEFS_BLOCK_SIZE /\
  sizeof dm (struct_simplefs_dir_block dm) = 3964 /\
  sizeof dm (struct_simplefs_dir_block dm) <= SIMPLEFS_BLOCK_SIZE /\
  SIMPLEFS_BLOCK_SIZE = 4096.
Proof.
  split.
  - pose proof (sb_info_size_cases dm bd) as Hc.
    set (size := sizeof dm (struct_simplefs_sb_info bd)) in *.
    change SIMPLEFS_BLOCK_SIZE with 4096. unfold In in Hc. lia.
  - by_layout dm.
Qed.

(** ** Directory block *)

Lemma dir_block_element_offset (dm : data_model) (i : Z) :
  element_offset dm (struct_simplefs_dir_block dm) "files" i
  = Some (4 + i * 264).
Proof. destruct dm; reflexivity. Qed.

(** C3, as stated, fails: a directory entry takes 264 bytes, not 263, and
    the second entry of a block lies at offset 268, not 267. *)
Lemma dir_entries_not_packed :
  sizeof LP64 struct_simplefs_file = 264 /\
  element_offset LP64 (struct_simplefs_dir_block LP64) "files" 1 = Some 268 /\
  ~ dir_entries_packed LP64.
Proof.
  repeat split; try reflexivity.
  intros [Hsize _]. vm_compute in Hsize. discriminate.
Qed.

(** C3, amended: a directory block is a 4-byte counter at offset 0 followed,
    from offset 4 on, by 15 entries of 264 bytes each: inode number at 0,
    block-usage counter at 4, the 255-byte name at 8, and one byte of
    padding that rounds 263 up to the entry's 4-byte alignment.  The block
    structure takes 3964 bytes; the 132 bytes left of the block are too few
    for another entry. *)
Theorem dir_block_layout (dm : data_model) :
  field_names (struct_simplefs_dir_block dm) = ["nr_files"; "files"] /\
  offsetof dm (struct_simplefs_dir_block dm) "nr_files" = Some 0 /\
  field_type (struct_simplefs_dir_block dm) "nr_files" = Some Tuint32 /\
  offsetof dm (struct_simplefs_dir_block dm) "files" = Some 4 /\
  field_type (struct_simplefs_dir_block dm) "files"
    = Some (Tarray struct_simplefs_file 15) /\
  (forall i : Z,
     element_offset dm (struct_simplefs_dir_block dm) "files" i
     = Some (4 + i * 264)) /\
  field_names struct_simplefs_file = ["inode"; "nr_blk"; "filename"] /\
  field_types struct_simplefs_file = [Tuint32; Tuint32; Tarray Tchar 255] /\
  map (offsetof dm struct_simplefs_file) (field_names struct_simplefs_file)
    = [Some 0; Some 4; Some 8] /\
  members_size dm struct_simplefs_file = 4 + 4 + 255 /\
  sizeof dm struct_simplefs_file = 4 + 4 + 255 + 1 /\
  sizeof dm (struct_simplefs_dir_block dm) = 4 + 15 * 264 /\
  SIMPLEFS_BLOCK_SIZE - sizeof dm (struct_simplefs_dir_block dm) = 132 /\
  132 < sizeof dm struct_simplefs_file.
Proof.
  repeat split; try apply dir_block_element_offset; by_layout dm.
Qed.

(** ** Superblock record *)

(** C5, as stated, fails: in the user-space reading of the header the
    structure has two members after the eight counters. *)
Lemma sb_info_has_more_fields :
  field_names (struct_simplefs_sb_info Userspace)
    = sb_counters ++ ["ifree_bitmap"; "bfree_bitmap"] /\
  ~ sb_only_counters Userspace.
Proof.
  split; [reflexivity|].
  unfold sb_only_counters. vm_compute. discriminate.
Qed.

Lemma sb_info_fields (bd : build) :
  exists extra : list string,
    field_names (struct_simplefs_sb_info bd)
      = sb_counters ++ ["ifree_bitmap"; "bfree_bitmap"] ++ extra /\
    field_types (struct_simplefs_sb_info bd)
      = replicate 8 Tuint32 ++ replicate (2 + length extra) Tpointer /\
    (length extra <= 3)%nat /\
    (defined_KERNEL bd = false -> extra = []).
Proof.
  destruct bd as [|code]; unfold struct_simplefs_sb_info; simpl.
  - exists []. repeat split; simpl; lia.
  - destruct (KERNEL_VERSION 6 9 0 <=? code);
      [|destruct (KERNEL_VERSION 6 7 0 <=? code)];
      eexists; (split; [reflexivity|]); simpl;
      repeat split; first [lia | discriminate].
Qed.

Lemma sb_info_kernel_fields (code : Z) :
  field_names (struct_simplefs_sb_info (Kernel code))
  = sb_counters
    ++ ["ifree_bitmap"; "bfree_bitmap"; "journal"; "s_journal_bdev"]
    ++ (if KERNEL_VERSION 6 9 0 <=? code then ["s_journal_bdev_file"]
        else if KERNEL_VERSION 6 7 0 <=? code then ["s_journal_bdev_handle"]
        else []).
Proof.
  unfold struct_simplefs_sb_info, SIMPLEFS_AT_LEAST. simpl defined_KERNEL. cbv iota.
  destruct (KERNEL_VERSION 6 9 0 <=? code), (KERNEL_VERSION 6 7 0 <=? code);
    reflexivity.
Qed.

Lemma sb_info_kernel_offsets (dm : data_model) (code : Z) :
  map (offsetof dm (struct_simplefs_sb_info (Kernel code)))
      ["ifree_bitmap"; "bfree_bitmap"; "journal"; "s_journal_bdev"]
  = map (fun k => Some (32 + k * pointer_size dm)) [0; 1; 2; 3].
Proof.
  unfold struct_simplefs_sb_info, SIMPLEFS_AT_LEAST. simpl defined_KERNEL. cbv iota.
  destruct (KERNEL_VERSION 6 9 0 <=? code), (KERNEL_VERSION 6 7 0 <=? code);
    destruct dm; reflexivity.
Qed.

(** C5, amended: the superblock structure begins with exactly the eight
    4-byte counters, in the order magic, block and inode totals, the three
    region sizes, the two free counters, at offsets 0 to 28; after them it
    always carries the two in-memory bitmap pointers (the first at offset
    32); the user-space structure ends there, and in a kernel build the
    journal handles [journal] and [s_journal_bdev] follow, then
    [s_journal_bdev_file] from version 6.9 on or [s_journal_bdev_handle]
    for versions 6.7 and 6.8; every member after the counters is a
    pointer. *)
Theorem sb_info_layout (dm : data_model) (bd : build) :
  take 8 (field_names (struct_simplefs_sb_info bd)) = sb_counters /\
  take 8 (field_types (struct_simplefs_sb_info bd)) = replicate 8 Tuint32 /\
  map (offsetof dm (struct_simplefs_sb_info bd)) sb_counters
    = map Some [0; 4; 8; 12; 16; 20; 24; 28] /\
  take 2 (drop 8 (field_names (struct_simplefs_sb_info bd)))
    = ["ifree_bitmap"; "bfree_bitmap"] /\
  offsetof dm (struct_simplefs_sb_info bd) "ifree_bitmap" = Some 32 /\
  Forall (fun t => t = Tpointer) (drop 8 (field_types (struct_simplefs_sb_info bd))) /\
  (10 <= length (field_names (struct_simplefs_sb_info bd)) <= 13)%nat /\
  field_names (struct_simplefs_sb_info Userspace)
    = sb_counters ++ ["ifree_bitmap"; "bfree_bitmap"] /\
  drop 10 (field_names (struct_simplefs_sb_info bd))
    = (if defined_KERNEL bd then
         ["journal"; "s_journal_bdev"]
         ++ (if SIMPLEFS_AT_LEAST bd 6 9 0 then ["s_journal_bdev_file"]
             else if SIMPLEFS_AT_LEAST bd 6 7 0 then ["s_journal_bdev_handle"]
             else [])
       else []) /\
  (forall code : Z,
     field_names (struct_simplefs_sb_info (Kernel code))
     = sb_counters
       ++ ["ifree_bitmap"; "bfree_bitmap"; "journal"; "s_journal_bdev"]
       ++ (if KERNEL_VERSION 6 9 0 <=? code then ["s_journal_bdev_file"]
           else if KERNEL_VERSION 6 7 0 <=? code then ["s_journal_bdev_handle"]
           else [])) /\
  (forall code : Z,
     map (offsetof dm (struct_simplefs_sb_info (Kernel code)))
         ["ifree_bitmap"; "bfree_bitmap"; "journal"; "s_journal_bdev"]
     = map (fun k => Some (32 + k * pointer_size dm)) [0; 1; 2; 3]).
Proof.
  assert (Hdrop :
    drop 10 (field_names (struct_simplefs_sb_info bd))
    = (if defined_KERNEL bd then
         ["journal"; "s_journal_bdev"]
         ++ (if SIMPLEFS_AT_LEAST bd 6 9 0 then ["s_journal_bdev_file"]
             else if SIMPLEFS_AT_LEAST bd 6 7 0 then ["s_journal_bdev_handle"]
             else [])
       else [])).
  { destruct bd as [|code]; [reflexivity|].
    rewrite sb_info_kernel_fields. unfold SIMPLEFS_AT_LEAST. simpl defined_KERNEL.
    cbv iota. reflexivity. }
  destruct (sb_info_fields bd) as (extra & Hn & Ht & Hlen & _).
  split; [rewrite Hn; reflexivity|].
  split; [rewrite Ht; reflexivity|].
  split; [reflexivity|].
  split; [rewrite Hn; reflexivity|].
  split; [destruct dm; reflexivity|].
  split.
  { rewrite Ht. simpl. do 2 (constructor; [reflexivity|]).
    apply Forall_replicate. reflexivity. }
  split; [rewrite Hn, !length_app; simpl; lia|].
  split; [reflexivity|].
  split; [exact Hdrop|].
  split; [exact sb_info_kernel_fields | exact (sb_info_kernel_offsets dm)].
Qed.

(** ** Extent search *)

Lemma covers_spec (e : simplefs_extent) (blk : Z) :
  covers e blk = true <-> ee_block e <= blk < ee_block e + ee_len e.
Proof. unfold covers. rewrite andb_true_iff, Z.leb_le, Z.ltb_lt. tauto. Qed.

Lemma covers_false (e : simplefs_extent) (blk : Z) :
  covers e blk = false <-> ~ (ee_block e <= blk < ee_block e + ee_len e).
Proof. rewrite <- covers_spec. destruct (covers e blk); intuition congruence. Qed.

Lemma ext_scan_first (es : list simplefs_extent) (blk : Z) :
  forall (i : nat) (e : simplefs_extent),
    es !! i = Some e ->
    covers e blk = true ->
    (forall (j : nat) (e' : simplefs_extent),
        (j < i)%nat -> es !! j = Some e' -> covers e' blk = false) ->
    ext_scan es blk = Some (physical e blk).
Proof.
  induction es as [|a rest IH]; intros i e Hi Hcov Hbefore.
  - discriminate.
  - destruct i as [|i]; simpl in *.
    + injection Hi as ->. rewrite Hcov. reflexivity.
    + rewrite (Hbefore 0%nat a) by (lia || reflexivity).
      apply (IH i e Hi Hcov).
      intros j e' Hj He'. apply (Hbefore (S j) e'); [lia | exact He'].
Qed.

Lemma ext_scan_None (es : list simplefs_extent) (blk : Z) :
  ext_scan es blk = None <-> forall e, e ∈ es -> covers e blk = false.
Proof.
  induction es as [|a rest IH]; simpl.
  - split; [intros _ e He; inversion He | reflexivity].
  - destruct (covers a blk) eqn:Hcov.
    + split; [discriminate|]. intros Hall.
      specialize (Hall a (list_elem_of_here a rest)). congruence.
    + rewrite IH. split.
      * intros Hall e He. apply elem_of_cons in He as [->|He]; auto.
      * intros Hall e He. apply Hall. apply list_elem_of_further. exact He.
Qed.

Lemma ext_scan_covering (es : list simplefs_extent) (blk : Z) :
  non_overlapping es ->
  forall e, e ∈ es -> covers e blk = true ->
  ext_scan es blk = Some (physical e blk).
Proof.
  induction 1 as [|a rest Hdisj Hrest IH]; intros e He Hcov.
  - inversion He.
  - simpl. apply elem_of_cons in He as [->|He].
    + rewrite Hcov. reflexivity.
    + destruct (covers a blk) eqn:Hcova.
      * rewrite Forall_forall in Hdisj.
        pose proof (Hdisj e He blk Hcova). congruence.
      * apply IH; assumption.
Qed.

(** C2: on a well-formed extent array the search returns, for a logical
    block inside some extent, [ee_start + (iblock - ee_block)] of that
    extent, the first in array order that holds the block, and NotFound
    exactly when no extent holds it. *)
Theorem ext_search_correct (index : simplefs_file_ei_block) (iblock : Z) :
  well_formed (extents index) ->
  (forall (i : nat) (e : simplefs_extent),
      extents index !! i = Some e ->
      ee_block e <= iblock < ee_block e + ee_len e ->
      (forall (j : nat) (e' : simplefs_extent),
          (j < i)%nat -> extents index !! j = Some e' ->
          ~ (ee_block e' <= iblock < ee_block e' + ee_len e')) ->
      simplefs_ext_search index iblock
      = Some (ee_start e + (iblock - ee_block e))) /\
  (forall e : simplefs_extent,
      e ∈ extents index ->
      ee_block e <= iblock < ee_block e + ee_len e ->
      simplefs_ext_search index iblock
      = Some (ee_start e + (iblock - ee_block e))) /\
  (simplefs_ext_search index iblock = None <->
   forall e : simplefs_extent,
     e ∈ extents index ->
     ~ (ee_block e <= iblock < ee_block e + ee_len e)).
Proof.
  intros [_ Hno]. unfold simplefs_ext_search. repeat split.
  - intros i e Hi Hin Hbefore.
    apply (ext_scan_first _ _ i e Hi); [apply covers_spec; exact Hin|].
    intros j e' Hlt Hj. apply covers_false. exact (Hbefore j e' Hlt Hj).
  - intros e He Hin. apply (ext_scan_covering _ _ Hno e He).
    apply covers_spec. exact Hin.
  - intros Hnone e He. apply covers_false.
    apply (proj1 (ext_scan_None _ _) Hnone e He).
  - intros Hall. apply ext_scan_None. intros e He.
    apply covers_false. exact (Hall e He).
Qed.

Lemma two_extents_well_formed : well_formed (extents two_extents).
Proof.
  split.
  - repeat constructor; simpl; lia.
  - repeat constructor. intros blk. rewrite covers_spec, covers_false. simpl. lia.
Defined.

Lemma ext_search_correct_witness :
  well_formed (extents two_extents) /\
  simplefs_ext_search two_extents 9 = Some 201 /\
  simplefs_ext_search two_extents 12 = None.
Proof.
  pose proof (ext_search_correct two_extents 9 two_extents_well_formed)
    as (_ & Hhit & _).
  pose proof (ext_search_correct two_extents 12 two_extents_well_formed)
    as (_ & _ & Hmiss).
  split; [exact two_extents_well_formed|]. split.
  - apply (Hhit {| ee_block := 8; ee_len := 4; ee_start := 200; nr_files := 0 |}).
    + apply list_elem_of_further, list_elem_of_here.
    + simpl. lia.
  - apply Hmiss. intros e He.
    apply elem_of_cons in He as [->|He]; [simpl; lia|].
    apply elem_of_cons in He as [->|He]; [simpl; lia|].
    inversion He.
Defined.

(** ** Extent lengths *)

Lemma allocate_upto_len (n : nat) (a : allocator) :
  forall (len start : nat) (a' : allocator),
    allocate_upto n a = Ok (len, start, a') -> (1 <= len <= n)%nat.
Proof.
  induction n as [|n IH]; intros len start a' Hal.
  - discriminate.
  - cbn [allocate_upto] in Hal.
    destruct (allocate_blocks (S n) a) as [[start0 a0]|err].
    + injection Hal as <- _ _. lia.
    + specialize (IH len start a' Hal). lia.
Qed.




(** ** Mount *)

(** C6: mount fails with [CorruptSuperblock] whenever the magic field of
    the superblock differs from [SIMPLEFS_MAGIC] (the constant written
    [0xDEADCELL], of value [0xDEADCE]); a volume that is accepted has the
    matching magic. *)
Theorem fill_super_checks_magic (totals_agree : simplefs_sb_info -> bool)
    (sb : simplefs_sb_info) :
  (magic sb <> SIMPLEFS_MAGIC ->
   simplefs_fill_super totals_agree sb = Err CorruptSuperblock) /\
  (forall mounted : simplefs_sb_info,
      simplefs_fill_super totals_agree sb = Ok mounted ->
      magic sb = SIMPLEFS_MAGIC) /\
  SIMPLEFS_MAGIC = 0xDEADCE.
Proof.
  unfold simplefs_fill_super. repeat split.
  - intros Hne. apply Z.eqb_neq in Hne. rewrite Hne. reflexivity.
  - intros mounted Hok.
    destruct (magic sb =? SIMPLEFS_MAGIC) eqn:Heq; [|discriminate].
    apply Z.eqb_eq. exact Heq.
Qed.

Lemma fill_super_checks_magic_witness :
  magic sb_bad_magic <> SIMPLEFS_MAGIC /\
  simplefs_fill_super totals_match_bitmaps sb_bad_magic = Err CorruptSuperblock /\
  simplefs_fill_super totals_match_bitmaps sb_good = Ok sb_good /\
  magic sb_good = SIMPLEFS_MAGIC.
Proof.
  pose proof (fill_super_checks_magic totals_match_bitmaps sb_bad_magic)
    as (Hreject & _ & _).
  pose proof (fill_super_checks_magic totals_match_bitmaps sb_good)
    as (_ & Haccept & _).
  assert (Hbad : magic sb_bad_magic <> SIMPLEFS_MAGIC) by (vm_compute; discriminate).
  assert (Hgood : simplefs_fill_super totals_match_bitmaps sb_good = Ok sb_good)
    by (vm_compute; reflexivity).
  exact (conj Hbad (conj (Hreject Hbad) (conj Hgood (Haccept sb_good Hgood)))).
Defined.

(** ** The extent counter *)

Lemma ext_scan_with_nr_files (f : simplefs_extent -> Z)
    (es : list simplefs_extent) (blk : Z) :
  ext_scan (map (with_nr_files f) es) blk = ext_scan es blk.
Proof.
  induction es as [|e rest IH]; [reflexivity|].
  simpl. change (covers (with_nr_files f e) blk) with (covers e blk).
  rewrite IH. reflexivity.
Qed.

Lemma grow_extents (dm : data_model) (a : allocator)
    (index : simplefs_file_ei_block) (blk : Z) :
  forall (phys : Z) (a' : allocator) (index' : simplefs_file_ei_block),
    grow dm a index blk = Ok (phys, a', index') ->
    (extents index' = extents index
     /\ ext_scan (extents index) blk = Some phys)
    \/ (ext_scan (extents index) blk = None
        /\ exists len start : nat,
             (1 <= len)%nat /\ phys = Z.of_nat start /\
             extents index'
             = extents index
               ++ [ {| ee_block := blk; ee_len := Z.of_nat len;
                       ee_start := Z.of_nat start; nr_files := 0 |} ]).
Proof.
  intros phys a' index' Hgrow. unfold grow, simplefs_ext_search in Hgrow.
  destruct (ext_scan (extents index) blk) as [p|] eqn:Hscan.
  - injection Hgrow as <- _ <-. left. split; reflexivity.
  - destruct (SIMPLEFS_MAX_EXTENTS dm <=? Z.of_nat (length (extents index)));
      [discriminate|].
    destruct (allocate_upto (Z.to_nat SIMPLEFS_MAX_BLOCKS_PER_EXTENT) a)
      as [[[len start] a1]|err] eqn:Hal; [|discriminate].
    injection Hgrow as <- _ <-. right. split; [reflexivity|].
    exists len, start. apply allocate_upto_len in Hal.
    split; [lia|]. split; reflexivity.
Qed.

Lemma ext_scan_app_None (es : list simplefs_extent) (e : simplefs_extent)
    (blk : Z) :
  ext_scan es blk = None ->
  ext_scan (es ++ [e]) blk
  = if covers e blk then Some (physical e blk) else None.
Proof.
  induction es as [|a rest IH]; simpl; [reflexivity|].
  destruct (covers a blk); [discriminate | exact IH].
Qed.

Lemma grow_then_search (dm : data_model) (a : allocator)
    (index : simplefs_file_ei_block) (blk : Z) :
  forall (phys : Z) (a' : allocator) (index' : simplefs_file_ei_block),
    grow dm a index blk = Ok (phys, a', index') ->
    ext_scan (extents index') blk = Some phys.
Proof.
  intros phys a' index' Hgrow.
  destruct (grow_extents dm a index blk phys a' index' Hgrow)
    as [[-> Hscan]|(Hscan & len & start & Hlen & -> & ->)].
  - exact Hscan.
  - rewrite (ext_scan_app_None _ _ _ Hscan).
    unfold covers, physical. simpl.
    replace (blk <=? blk) with true by (symmetry; apply Z.leb_le; lia).
    replace (blk <? blk + Z.of_nat len) with true
      by (symmetry; apply Z.ltb_lt; lia).
    simpl. f_equal. lia.
Qed.

Lemma ext_position_lt (es : list simplefs_extent) (blk phys : Z) :
  ext_scan es blk = Some phys -> (ext_position es blk < length es)%nat.
Proof.
  induction es as [|e rest IH]; simpl; [discriminate|].
  destruct (covers e blk); intros Hscan; [lia|].
  specialize (IH Hscan). lia.
Qed.

Lemma extent_entries_app (es1 es2 : list simplefs_extent) :
  extent_entries (es1 ++ es2) = extent_entries es1 + extent_entries es2.
Proof. induction es1 as [|e rest IH]; simpl; [reflexivity | rewrite IH; lia]. Qed.

Lemma extent_entries_alter (delta : Z) (es : list simplefs_extent) :
  forall i : nat,
    (i < length es)%nat ->
    extent_entries (alter (count_entry delta) i es) = extent_entries es + delta.
Proof.
  induction es as [|e rest IH]; intros i Hi; simpl in Hi; [lia|].
  destruct i as [|i]; simpl.
  - lia.
  - specialize (IH i ltac:(lia)). unfold alter in IH. lia.
Qed.

Lemma find_slot_position (dm : data_model) (blocks : gmap Z simplefs_dir_block)
    (es : list simplefs_extent) :
  forall (pos p : nat) (b : Z),
    find_slot dm blocks es pos = Some (p, b) ->
    (pos <= p < pos + length es)%nat.
Proof.
  induction es as [|e rest IH]; intros pos p b Hfind; simpl in *; [discriminate|].
  destruct (first_free_block dm blocks (extent_blocks e)).
  - injection Hfind as <- _. lia.
  - specialize (IH _ _ _ Hfind). lia.
Qed.

Lemma find_entry_position (blocks : gmap Z simplefs_dir_block)
    (es : list simplefs_extent) (name : string) :
  forall (pos p : nat) (b : Z) (j : nat),
    find_entry blocks es pos name = Some (p, b, j) ->
    (pos <= p < pos + length es)%nat.
Proof.
  induction es as [|e rest IH]; intros pos p b j Hfind; simpl in *; [discriminate|].
  destruct (find_in_blocks blocks (extent_blocks e) name) as [[b0 j0]|].
  - injection Hfind as <- _ _. lia.
  - specialize (IH _ _ _ _ Hfind). lia.
Qed.

Lemma add_entry_counts (dm : data_model) (st : dir_state) (name : string)
    (target_ino : Z) (st' : dir_state) :
  add_entry dm st name target_ino = Ok st' ->
  extent_entries (extents (dir_index st'))
  = extent_entries (extents (dir_index st)) + 1.
Proof.
  unfold add_entry.
  destruct (SIMPLEFS_MAX_SUBFILES dm <=? extent_entries (extents (dir_index st)));
    [discriminate|].
  destruct (find_slot dm (dir_blocks st) (extents (dir_index st)) 0)
    as [[pos b]|] eqn:Hslot.
  - intros Hok. injection Hok as <-. simpl.
    apply find_slot_position in Hslot.
    apply extent_entries_alter. lia.
  - destruct (grow dm (dir_alloc st) (dir_index st) _)
      as [[[phys a'] index']|err] eqn:Hgrow; [|discriminate].
    intros Hok. injection Hok as <-. simpl.
    pose proof (grow_then_search _ _ _ _ _ _ _ Hgrow) as Hscan.
    rewrite extent_entries_alter by (eapply ext_position_lt; exact Hscan).
    destruct (grow_extents _ _ _ _ _ _ _ Hgrow)
      as [[-> _]|(_ & len & start & _ & _ & ->)]; [reflexivity|].
    rewrite extent_entries_app. simpl. lia.
Qed.

Lemma remove_entry_counts (st : dir_state) (name : string) (st' : dir_state) :
  remove_entry st name = Ok st' ->
  extent_entries (extents (dir_index st'))
  = extent_entries (extents (dir_index st)) - 1.
Proof.
  unfold remove_entry.
  destruct (find_entry (dir_blocks st) (extents (dir_index st)) 0 name)
    as [[[pos b] j]|] eqn:Hfind; [|discriminate].
  intros Hok. injection Hok as <-. simpl.
  apply find_entry_position in Hfind.
  rewrite extent_entries_alter by lia. lia.
Qed.

Lemma file_extents_uncounted (dm : data_model) (index : simplefs_file_ei_block) :
  index_of dm RegularFile index ->
  Forall (fun e => nr_files e = 0) (extents index).
Proof.
  intros Hfile. remember RegularFile as kind eqn:Hkind.
  induction Hfile as [kind|kind a index blk phys a' index' _ IH Hgrow| |];
    try discriminate.
  - constructor.
  - specialize (IH Hkind).
    destruct (grow_extents _ _ _ _ _ _ _ Hgrow)
      as [[-> _]|(_ & len & start & _ & _ & ->)]; [exact IH|].
    apply Forall_app. split; [exact IH|].
    apply Forall_singleton. reflexivity.
Qed.

(** C8: the extent index block is a 4-byte counter at offset 0 followed, from
    offset 4 on, by 16-byte extent records with no padding between or inside
    them; a record is [ee_block], [ee_len], [ee_start], [nr_files], four
    bytes each, in that order.  The extent's [nr_files] is used only for
    directories: the search gives the same answer whatever the counters
    hold, an extent whose counter is not 0 can only lie in the index of a
    directory, and it is the directory entry operations that count with it,
    one up for an entry added and one down for an entry removed, and that
    read it, refusing a further entry once the counters add up to
    [SIMPLEFS_MAX_SUBFILES]. *)
Theorem ei_block_layout (dm : data_model) :
  field_names (struct_simplefs_file_ei_block dm) = ["nr_files"; "extents"] /\
  offsetof dm (struct_simplefs_file_ei_block dm) "nr_files" = Some 0 /\
  field_type (struct_simplefs_file_ei_block dm) "nr_files" = Some Tuint32 /\
  sizeof dm Tuint32 = 4 /\
  offsetof dm (struct_simplefs_file_ei_block dm) "extents" = Some 4 /\
  field_type (struct_simplefs_file_ei_block dm) "extents"
    = Some (Tarray struct_simplefs_extent (SIMPLEFS_MAX_EXTENTS dm)) /\
  (forall i : Z,
     element_offset dm (struct_simplefs_file_ei_block dm) "extents" i
     = Some (4 + i * 16)) /\
  sizeof dm struct_simplefs_extent = 16 /\
  members_size dm struct_simplefs_extent = 16 /\
  field_names struct_simplefs_extent
    = ["ee_block"; "ee_len"; "ee_start"; "nr_files"] /\
  field_types struct_simplefs_extent = replicate 4 Tuint32 /\
  map (offsetof dm struct_simplefs_extent) (field_names struct_simplefs_extent)
    = [Some 0; Some 4; Some 8; Some 12] /\
  (forall (f : simplefs_extent -> Z) (index : simplefs_file_ei_block)
          (iblock : Z),
     simplefs_ext_search
       {| ei_nr_files := ei_nr_files index;
          extents := map (with_nr_files f) (extents index) |} iblock
     = simplefs_ext_search index iblock) /\
  (forall (kind : inode_kind) (index : simplefs_file_ei_block)
          (e : simplefs_extent),
     index_of dm kind index ->
     e ∈ extents index ->
     nr_files e <> 0 ->
     kind = Directory) /\
  (forall (st : dir_state) (name : string) (target_ino : Z) (st' : dir_state),
     add_entry dm st name target_ino = Ok st' ->
     extent_entries (extents (dir_index st'))
     = extent_entries (extents (dir_index st)) + 1) /\
  (forall (st : dir_state) (name : string) (st' : dir_state),
     remove_entry st name = Ok st' ->
     extent_entries (extents (dir_index st'))
     = extent_entries (extents (dir_index st)) - 1) /\
  (forall (st : dir_state) (name : string) (target_ino : Z),
     SIMPLEFS_MAX_SUBFILES dm <= extent_entries (extents (dir_index st)) ->
     add_entry dm st name target_ino = Err DirectoryFull).
Proof.
  assert (Hlayout :
    field_names (struct_simplefs_file_ei_block dm) = ["nr_files"; "extents"] /\
    offsetof dm (struct_simplefs_file_ei_block dm) "nr_files" = Some 0 /\
    field_type (struct_simplefs_file_ei_block dm) "nr_files" = Some Tuint32 /\
    sizeof dm Tuint32 = 4 /\
    offsetof dm (struct_simplefs_file_ei_block dm) "extents" = Some 4 /\
    field_type (struct_simplefs_file_ei_block dm) "extents"
      = Some (Tarray struct_simplefs_extent (SIMPLEFS_MAX_EXTENTS dm)) /\
    sizeof dm struct_simplefs_extent = 16 /\
    members_size dm struct_simplefs_extent = 16 /\
    field_names struct_simplefs_extent
      = ["ee_block"; "ee_len"; "ee_start"; "nr_files"] /\
    field_types struct_simplefs_extent = replicate 4 Tuint32 /\
    map (offsetof dm struct_simplefs_extent) (field_names struct_simplefs_extent)
      = [Some 0; Some 4; Some 8; Some 12]) by by_layout dm.
  destruct Hlayout as (H1 & H2 & H3 & H4 & H5 & H6 & H8 & H9 & H10 & H11 & H12).
  do 6 (split; [assumption|]).
  split; [apply ei_block_element_offset|].
  do 5 (split; [assumption|]).
  split; [intros f index iblock; apply ext_scan_with_nr_files|].
  split.
  - intros [|] index e Hindex He Hcount; [exfalso | reflexivity].
    pose proof (file_extents_uncounted dm index Hindex) as Hzero.
    rewrite Forall_forall in Hzero. exact (Hcount (Hzero e He)).
  - split; [apply add_entry_counts|]. split; [apply remove_entry_counts|].
    intros st name target_ino Hfull. unfold add_entry.
    apply Z.leb_le in Hfull. rewrite Hfull. reflexivity.
Qed.

Lemma ei_block_layout_witness :
  index_of LP64 Directory (dir_index dir_one_entry) /\
  add_entry LP64 dir_new "a" 7 = Ok dir_one_entry /\
  extent_entries (extents (dir_index dir_one_entry))
  = extent_entries (extents (dir_index dir_new)) + 1 /\
  Directory = Directory.
Proof.
  pose proof (ei_block_layout LP64)
    as (_ & _ & _ & _ & _ & _ & _ & _ & _ & _ & _ & _ & _ & Honly & Hadd & _ & _).
  assert (Hok : add_entry LP64 dir_new "a" 7 = Ok dir_one_entry)
    by (vm_compute; reflexivity).
  assert (Hdir : index_of LP64 Directory (dir_index dir_one_entry)).
  { apply (index_add LP64 dir_new "a" 7 dir_one_entry); [apply index_new | exact Hok]. }
  split; [exact Hdir|]. split; [exact Hok|].
  split; [exact (Hadd dir_new "a" 7 dir_one_entry Hok)|].
  apply (Honly Directory (dir_index dir_one_entry)
           {| ee_block := 0; ee_len := 3; ee_start := 2; nr_files := 1 |} Hdir).
  - apply list_elem_of_here.
  - simpl. lia.
Defined.

(** * Further properties of the header *)

(** ** Nested induction on object types *)

Lemma ctype_nested_ind (P : ctype -> Prop) :
  P Tuint32 -> P Tchar -> P Tpointer ->
  (forall elt len, P elt -> P (Tarray elt len)) ->
  (forall tag fields, Forall (fun f => P (snd f)) fields -> P (Tstruct tag fields)) ->
  forall t, P t.
Proof.
  intros Hu Hc Hp Ha Hs.
  fix IH 1. intros [| | |elt len|tag fields].
  - exact Hu.
  - exact Hc.
  - exact Hp.
  - apply Ha, IH.
  - apply Hs. induction fields as [|[name ty] rest IHrest].
    + constructor.
    + constructor; [apply IH | exact IHrest].
Qed.

Lemma foldl_place_ge (l : list (Z * Z)) :
  forall pos : Z,
    Forall (fun sa => 0 <= fst sa /\ 0 < snd sa) l ->
    pos <= foldl place pos l.
Proof.
  induction l as [|[sz al] rest IH]; intros pos Hall; simpl.
  - lia.
  - inversion Hall as [|? ? [Hsz Hal] Hrest]; subst. simpl in *.
    specialize (IH (place pos (sz, al)) Hrest).
    unfold place in *. simpl in *.
    pose proof (align_up_ge pos al Hal). lia.
Qed.

Lemma sizeof_nonneg (dm : data_model) (t : ctype) : 0 <= sizeof dm t.
Proof.
  induction t as [| | |elt len IH|tag fields IH] using ctype_nested_ind.
  - simpl. lia.
  - simpl. lia.
  - destruct dm; simpl; lia.
  - simpl. nia.
  - cbn [sizeof].
    etransitivity; [|apply align_up_ge, (alignof_pos dm (Tstruct tag fields))].
    apply foldl_place_ge.
    induction IH as [|[name ty] rest Hty _ IHrest]; simpl.
    + constructor.
    + constructor; [|exact IHrest]. simpl in *.
      split; [exact Hty | apply alignof_pos].
Qed.

(** ** Members inside their structure *)

Lemma layout_entries_ok (dm : data_model) (fields : list (string * ctype)) :
  Forall (fun sa => 0 <= fst sa /\ 0 < snd sa)
    (map (fun f => (sizeof dm (snd f), alignof dm (snd f))) fields).
Proof.
  induction fields as [|[name ty] rest IH]; simpl; constructor; [|exact IH].
  simpl. split; [apply sizeof_nonneg | apply alignof_pos].
Qed.

Lemma offset_from_spec (dm : data_model) (fields : list (string * ctype)) :
  forall (pos : Z) (id : string) (off : Z) (ty : ctype),
    offset_from dm pos fields id = Some off ->
    type_from fields id = Some ty ->
    pos <= off /\
    (alignof dm ty | off) /\
    off + sizeof dm ty
    <= foldl place pos
         (map (fun f => (sizeof dm (snd f), alignof dm (snd f))) fields).
Proof.
  induction fields as [|[name ty0] rest IH]; intros pos id off ty Hoff Hty.
  - discriminate.
  - simpl in *.
    pose proof (align_up_ge pos (alignof dm ty0) (alignof_pos dm ty0)) as Hge.
    destruct (String.eqb name id).
    + injection Hoff as <-. injection Hty as <-.
      split; [exact Hge|]. split; [apply align_up_divide|].
      apply (foldl_place_ge _ (place pos (sizeof dm ty0, alignof dm ty0))).
      apply layout_entries_ok.
    + destruct (IH _ _ _ _ Hoff Hty) as (Hpos & Hdiv & Hend).
      pose proof (sizeof_nonneg dm ty0).
      split; [lia|]. split; [exact Hdiv | exact Hend].
Qed.

(** X7: a member of a structure lies at a non-negative offset that is a
    multiple of the member's alignment, and ends within the structure. *)
Theorem member_within_struct (dm : data_model) (t : ctype) (id : string)
    (off : Z) (ty : ctype) :
  offsetof dm t id = Some off ->
  field_type t id = Some ty ->
  0 <= off /\ (alignof dm ty | off) /\ off + sizeof dm ty <= sizeof dm t.
Proof.
  destruct t as [| | |elt len|tag fields]; try discriminate.
  intros Hoff Hty. cbn [offsetof field_type] in Hoff, Hty.
  destruct (offset_from_spec dm fields 0 id off ty Hoff Hty) as (H0 & Hdiv & Hend).
  split; [exact H0|]. split; [exact Hdiv|].
  cbn [sizeof]. etransitivity; [exact Hend|].
  apply align_up_ge, (alignof_pos dm (Tstruct tag fields)).
Qed.

Lemma member_within_struct_witness :
  offsetof LP64 struct_simplefs_file "filename" = Some 8 /\
  field_type struct_simplefs_file "filename" = Some (Tarray Tchar 255) /\
  0 <= 8 /\ (alignof LP64 (Tarray Tchar 255) | 8) /\
  8 + sizeof LP64 (Tarray Tchar 255) <= sizeof LP64 struct_simplefs_file.
Proof.
  split; [reflexivity|]. split; [reflexivity|].
  apply (member_within_struct LP64 struct_simplefs_file "filename" 8
           (Tarray Tchar 255)); reflexivity.
Defined.

Lemma offset_from_disjoint (dm : data_model) (fields : list (string * ctype)) :
  forall (pos : Z) (id1 id2 : string) (off1 off2 : Z) (ty1 ty2 : ctype),
    id1 <> id2 ->
    offset_from dm pos fields id1 = Some off1 ->
    type_from fields id1 = Some ty1 ->
    offset_from dm pos fields id2 = Some off2 ->
    type_from fields id2 = Some ty2 ->
    off1 + sizeof dm ty1 <= off2 \/ off2 + sizeof dm ty2 <= off1.
Proof.
  induction fields as [|[name ty0] rest IH];
    intros pos id1 id2 off1 off2 ty1 ty2 Hne Ho1 Ht1 Ho2 Ht2.
  - discriminate.
  - simpl in *.
    destruct (String.eqb name id1) eqn:E1, (String.eqb name id2) eqn:E2.
    + apply String.eqb_eq in E1, E2. congruence.
    + injection Ho1 as <-. injection Ht1 as <-.
      left. exact (proj1 (offset_from_spec dm rest _ _ _ _ Ho2 Ht2)).
    + injection Ho2 as <-. injection Ht2 as <-.
      right. exact (proj1 (offset_from_spec dm rest _ _ _ _ Ho1 Ht1)).
    + exact (IH _ _ _ _ _ _ _ Hne Ho1 Ht1 Ho2 Ht2).
Qed.

(** X8: two members of a structure with different names occupy disjoint
    byte ranges. *)
Theorem members_do_not_overlap (dm : data_model) (t : ctype)
    (id1 id2 : string) (off1 off2 : Z) (ty1 ty2 : ctype) :
  id1 <> id2 ->
  offsetof dm t id1 = Some off1 -> field_type t id1 = Some ty1 ->
  offsetof dm t id2 = Some off2 -> field_type t id2 = Some ty2 ->
  off1 + sizeof dm ty1 <= off2 \/ off2 + sizeof dm ty2 <= off1.
Proof.
  destruct t as [| | |elt len|tag fields]; try discriminate.
  cbn [offsetof field_type]. apply offset_from_disjoint.
Qed.

Lemma members_do_not_overlap_witness :
  "nr_files"%string <> "files"%string /\
  offsetof LP64 (struct_simplefs_dir_block LP64) "nr_files" = Some 0 /\
  offsetof LP64 (struct_simplefs_dir_block LP64) "files" = Some 4 /\
  (0 + sizeof LP64 Tuint32 <= 4
   \/ 4 + sizeof LP64 (Tarray struct_simplefs_file 15) <= 0).
Proof.
  assert (Hne : "nr_files"%string <> "files"%string) by discriminate.
  split; [exact Hne|]. split; [reflexivity|]. split; [reflexivity|].
  apply (members_do_not_overlap LP64 (struct_simplefs_dir_block LP64)
           "nr_files" "files" 0 4 Tuint32 (Tarray struct_simplefs_file 15) Hne);
    reflexivity.
Defined.

(** ** Array lengths chosen by the macros *)

Lemma sizeof_counted_array (dm : data_model) (tag counter array : string)
    (elt : ctype) (n : Z) :
  alignof dm elt = 4 ->
  (4 | sizeof dm elt) ->
  sizeof dm (Tstruct tag [(counter, Tuint32); (array, Tarray elt n)])
  = 4 + sizeof dm elt * Z.max 0 n.
Proof.
  intros Hal Hdiv.
  cbn [sizeof alignof map foldl foldr snd fst]. unfold place. cbn [fst snd].
  rewrite Hal.
  change (align_up 0 4 + 4) with 4.
  change (Z.max 4 (Z.max 4 1)) with 4.
  rewrite (align_up_aligned 4 4) by (lia || apply Z.divide_refl).
  apply align_up_aligned; [lia|].
  apply Z.divide_add_r; [apply Z.divide_refl|].
  apply Z.divide_mul_l. exact Hdiv.
Qed.

Lemma max_extents_value (dm : data_model) : SIMPLEFS_MAX_EXTENTS dm = 255.
Proof. destruct dm; reflexivity. Qed.

Lemma files_per_block_value (dm : data_model) : SIMPLEFS_FILES_PER_BLOCK dm = 15.
Proof. destruct dm; reflexivity. Qed.

Lemma sizeof_extent_value (dm : data_model) : sizeof dm struct_simplefs_extent = 16.
Proof. destruct dm; reflexivity. Qed.

Lemma sizeof_file_value (dm : data_model) : sizeof dm struct_simplefs_file = 264.
Proof. destruct dm; reflexivity. Qed.

(** X2: an extent index block with [n] extent slots takes [4 + 16 n] bytes,
    and it fits a block exactly when [n <= SIMPLEFS_MAX_EXTENTS]: the macro
    gives the largest array the block can hold. *)
Theorem max_extents_is_maximal (dm : data_model) (n : Z) :
  struct_simplefs_file_ei_block dm = ei_block_with (SIMPLEFS_MAX_EXTENTS dm) /\
  sizeof dm (ei_block_with n) = 4 + 16 * Z.max 0 n /\
  (sizeof dm (ei_block_with n) <= SIMPLEFS_BLOCK_SIZE
   <-> n <= SIMPLEFS_MAX_EXTENTS dm).
Proof.
  assert (Hsize : sizeof dm (ei_block_with n) = 4 + 16 * Z.max 0 n).
  { unfold ei_block_with. rewrite sizeof_counted_array.
    - rewrite sizeof_extent_value. reflexivity.
    - destruct dm; reflexivity.
    - rewrite sizeof_extent_value. exists 4. reflexivity. }
  split; [reflexivity|]. split; [exact Hsize|].
  rewrite Hsize, max_extents_value. change SIMPLEFS_BLOCK_SIZE with 4096. lia.
Qed.

(** X3: a directory block with [n] entries takes [4 + 264 n] bytes and fits
    a block exactly when [n <= SIMPLEFS_FILES_PER_BLOCK]; the macro divides
    the whole block by the entry size, and the 4-byte counter still fits
    because 136 bytes are left over by that division. *)
Theorem files_per_block_is_maximal (dm : data_model) (n : Z) :
  struct_simplefs_dir_block dm = dir_block_with (SIMPLEFS_FILES_PER_BLOCK dm) /\
  sizeof dm (dir_block_with n) = 4 + 264 * Z.max 0 n /\
  (sizeof dm (dir_block_with n) <= SIMPLEFS_BLOCK_SIZE
   <-> n <= SIMPLEFS_FILES_PER_BLOCK dm) /\
  SIMPLEFS_BLOCK_SIZE mod sizeof dm struct_simplefs_file = 136.
Proof.
  assert (Hsize : sizeof dm (dir_block_with n) = 4 + 264 * Z.max 0 n).
  { unfold dir_block_with. rewrite sizeof_counted_array.
    - rewrite sizeof_file_value. reflexivity.
    - destruct dm; reflexivity.
    - rewrite sizeof_file_value. exists 66. reflexivity. }
  split; [reflexivity|]. split; [exact Hsize|]. split.
  - rewrite Hsize, files_per_block_value.
    change SIMPLEFS_BLOCK_SIZE with 4096. lia.
  - rewrite sizeof_file_value. reflexivity.
Qed.

(** X6: the capacity macros are the exact products of their factors (no
    [size_t] or [uint64_t] wrap-around in either data model), and the
    largest file size, block count and directory size they allow fit the
    32-bit fields that store them. *)
Theorem capacity_macros_exact (dm : data_model) :
  SIMPLEFS_MAX_SIZES_PER_EXTENT = 8 * 4096 /\
  SIMPLEFS_MAX_FILESIZE dm
    = SIMPLEFS_MAX_SIZES_PER_EXTENT * SIMPLEFS_MAX_EXTENTS dm /\
  SIMPLEFS_FILES_PER_EXT dm
    = SIMPLEFS_FILES_PER_BLOCK dm * SIMPLEFS_MAX_BLOCKS_PER_EXTENT /\
  SIMPLEFS_MAX_SUBFILES dm
    = SIMPLEFS_FILES_PER_BLOCK dm * SIMPLEFS_MAX_BLOCKS_PER_EXTENT
      * SIMPLEFS_MAX_EXTENTS dm /\
  SIMPLEFS_MAX_FILESIZE dm < 2 ^ 32 /\
  SIMPLEFS_MAX_EXTENTS dm * SIMPLEFS_MAX_BLOCKS_PER_EXTENT + 1 < 2 ^ 32 /\
  SIMPLEFS_MAX_SUBFILES dm < 2 ^ 32.
Proof. by_layout dm. Qed.

(** ** The same image in both data models *)

Lemma sb_info_size_formula (dm : data_model) (bd : build) :
  sizeof dm (struct_simplefs_sb_info bd)
  = 32 + pointer_size dm
         * Z.of_nat (length (field_names (struct_simplefs_sb_info bd)) - 8).
Proof.
  destruct bd as [|code]; unfold struct_simplefs_sb_info; simpl defined_KERNEL;
    cbv iota.
  - destruct dm; reflexivity.
  - unfold SIMPLEFS_AT_LEAST.
    destruct (KERNEL_VERSION 6 9 0 <=? code);
      [|destruct (KERNEL_VERSION 6 7 0 <=? code)];
      destruct dm; reflexivity.
Qed.

(** X1: the structures written to disk blocks (inode, extent, directory
    entry, extent index block, directory block) have the same size,
    alignment and member offsets in the ILP32 and the LP64 data model; the
    superblock structure, which also carries pointers, is larger in LP64. *)
Theorem on_disk_layout_portable (dm1 dm2 : data_model) (bd : build) :
  map (sizeof dm1) (on_disk_structs dm1) = map (sizeof dm2) (on_disk_structs dm2) /\
  map (alignof dm1) (on_disk_structs dm1) = map (alignof dm2) (on_disk_structs dm2) /\
  map (member_offsets dm1) (on_disk_structs dm1)
    = map (member_offsets dm2) (on_disk_structs dm2) /\
  map (sizeof dm1) (on_disk_structs dm1) = [72; 16; 264; 4084; 3964] /\
  sizeof ILP32 (struct_simplefs_sb_info bd) < sizeof LP64 (struct_simplefs_sb_info bd).
Proof.
  assert (Hsb : sizeof ILP32 (struct_simplefs_sb_info bd)
                < sizeof LP64 (struct_simplefs_sb_info bd)).
  { rewrite !sb_info_size_formula.
    destruct (sb_info_fields bd) as (extra & Hn & _).
    rewrite Hn, !length_app. simpl. lia. }
  split; [|split; [|split; [|split; [|exact Hsb]]]];
    destruct dm1, dm2; reflexivity.
Qed.

(** X5: the superblock structure has no padding in any build: its size is
    the sum of its member sizes, 32 bytes of counters plus one pointer for
    each member after them. *)
Theorem sb_info_size (dm : data_model) (bd : build) :
  sizeof dm (struct_simplefs_sb_info bd)
    = members_size dm (struct_simplefs_sb_info bd) /\
  sizeof dm (struct_simplefs_sb_info bd)
    = 32 + pointer_size dm
           * Z.of_nat (length (field_names (struct_simplefs_sb_info bd)) - 8).
Proof.
  split; [|apply sb_info_size_formula].
  destruct bd as [|code]; unfold struct_simplefs_sb_info; simpl defined_KERNEL;
    cbv iota.
  - destruct dm; reflexivity.
  - unfold SIMPLEFS_AT_LEAST.
    destruct (KERNEL_VERSION 6 9 0 <=? code);
      [|destruct (KERNEL_VERSION 6 7 0 <=? code)];
      destruct dm; reflexivity.
Qed.

(** ** Members selected by the kernel version *)

Lemma kernel_version_value (major minor rev : Z) :
  0 <= rev ->
  exists r : Z,
    0 <= r <= 255 /\ KERNEL_VERSION major minor rev = 65536 * major + 256 * minor + r.
Proof.
  intros Hrev. unfold KERNEL_VERSION. rewrite !Z.shiftl_mul_pow2 by lia.
  change (2 ^ 16) with 65536. change (2 ^ 8) with 256.
  destruct (255 <? rev) eqn:Hclamp.
  - exists 255. lia.
  - apply Z.ltb_ge in Hclamp. exists rev. lia.
Qed.

Lemma sb_info_version_members (code : Z) :
  has_member (struct_simplefs_sb_info (Kernel code)) "journal" = true /\
  has_member (struct_simplefs_sb_info (Kernel code)) "s_journal_bdev" = true /\
  has_member (struct_simplefs_sb_info (Kernel code)) "s_journal_bdev_file"
    = (KERNEL_VERSION 6 9 0 <=? code) /\
  has_member (struct_simplefs_sb_info (Kernel code)) "s_journal_bdev_handle"
    = (KERNEL_VERSION 6 7 0 <=? code) && negb (KERNEL_VERSION 6 9 0 <=? code).
Proof.
  unfold struct_simplefs_sb_info, SIMPLEFS_AT_LEAST. simpl defined_KERNEL. cbv iota.
  destruct (KERNEL_VERSION 6 9 0 <=? code), (KERNEL_VERSION 6 7 0 <=? code);
    (split; [|split; [|split]]); reflexivity.
Qed.

(** X4: in a kernel build for version [major.minor.rev] the superblock
    structure always has the members [journal] and [s_journal_bdev]; it has
    [s_journal_bdev_file] exactly from version 6.9 on, and
    [s_journal_bdev_handle] exactly for versions 6.7 and 6.8, so never both.
    The user-space structure has none of the four. *)
Theorem sb_info_members_by_version (major minor rev : Z) :
  0 <= minor <= 255 ->
  0 <= rev ->
  let t := struct_simplefs_sb_info (Kernel (KERNEL_VERSION major minor rev)) in
  has_member t "journal" = true /\
  has_member t "s_journal_bdev" = true /\
  (has_member t "s_journal_bdev_file" = true
   <-> 6 < major \/ (major = 6 /\ 9 <= minor)) /\
  (has_member t "s_journal_bdev_handle" = true
   <-> major = 6 /\ 7 <= minor <= 8) /\
  has_member t "s_journal_bdev_file" && has_member t "s_journal_bdev_handle"
    = false /\
  map (has_member (struct_simplefs_sb_info Userspace))
      ["journal"; "s_journal_bdev"; "s_journal_bdev_file"; "s_journal_bdev_handle"]
    = [false; false; false; false].
Proof.
  intros Hminor Hrev t. subst t.
  destruct (sb_info_version_members (KERNEL_VERSION major minor rev))
    as (Hj & Hb & Hf & Hh).
  rewrite Hj, Hb, Hf, Hh.
  destruct (kernel_version_value major minor rev Hrev) as (r & Hr & ->).
  change (KERNEL_VERSION 6 9 0) with 395520.
  change (KERNEL_VERSION 6 7 0) with 395008.
  split; [reflexivity|]. split; [reflexivity|]. split; [|split; [|split]].
  - rewrite Z.leb_le. lia.
  - rewrite andb_true_iff, negb_true_iff, Z.leb_le, Z.leb_gt. lia.
  - destruct (395520 <=? 65536 * major + 256 * minor + r); [|apply andb_false_l].
    rewrite andb_true_l. apply andb_false_r.
  - reflexivity.
Qed.

Lemma sb_info_members_by_version_witness :
  0 <= 8 <= 255 /\ 0 <= 12 /\
  has_member (struct_simplefs_sb_info (Kernel (KERNEL_VERSION 6 8 12)))
    "s_journal_bdev_handle" = true /\
  has_member (struct_simplefs_sb_info (Kernel (KERNEL_VERSION 6 8 12)))
    "s_journal_bdev_file" = false.
Proof.
  assert (Hminor : 0 <= 8 <= 255) by lia.
  assert (Hrev : 0 <= 12) by lia.
  pose proof (sb_info_members_by_version 6 8 12 Hminor Hrev)
    as (_ & _ & _ & Hhandle & Hboth & _).
  cbv zeta in Hhandle, Hboth.
  assert (Hh : has_member (struct_simplefs_sb_info (Kernel (KERNEL_VERSION 6 8 12)))
                 "s_journal_bdev_handle" = true)
    by (apply Hhandle; lia).
  rewrite Hh, andb_true_r in Hboth.
  exact (conj Hminor (conj Hrev (conj Hh Hboth))).
Defined.

(** ** The in-memory inode *)

(** X9: in [struct simplefs_inode_info] the extent-index block number is at
    offset 0, the symlink buffer at 4, and the embedded VFS inode at 36
    rounded up to its own alignment; [SIMPLEFS_INODE] applied to the address
    of that member gives back the address of the enclosing structure. *)
Theorem simplefs_inode_container (dm : data_model) (struct_inode : ctype)
    (info : Z) :
  let t := struct_simplefs_inode_info struct_inode in
  let off := align_up 36 (alignof dm struct_inode) in
  offsetof dm t "ei_block" = Some 0 /\
  offsetof dm t "i_data" = Some 4 /\
  offsetof dm t "vfs_inode" = Some off /\
  36 <= off < 36 + alignof dm struct_inode /\
  member_address dm info t "vfs_inode" = Some (info + off) /\
  SIMPLEFS_INODE dm struct_inode (info + off) = Some info.
Proof.
  intros t off. subst t off.
  pose proof (alignof_pos dm struct_inode) as Hal.
  split; [reflexivity|]. split; [reflexivity|].
  assert (Hoff : offsetof dm (struct_simplefs_inode_info struct_inode) "vfs_inode"
                 = Some (align_up 36 (alignof dm struct_inode))) by reflexivity.
  split; [exact Hoff|]. split.
  - split; [apply align_up_ge; exact Hal | apply align_up_lt; exact Hal].
  - unfold SIMPLEFS_INODE, container_of, member_address. rewrite Hoff.
    split; [reflexivity|]. f_equal. lia.
Qed.

(** ** Array elements inside their structure *)

Lemma sizeof_aligned (dm : data_model) (t : ctype) : (alignof dm t | sizeof dm t).
Proof.
  induction t as [| | |elt IH len|tag fields].
  - apply Z.divide_refl.
  - apply Z.divide_refl.
  - apply Z.divide_refl.
  - cbn [sizeof alignof]. apply Z.divide_mul_l. exact IH.
  - cbn [sizeof]. apply align_up_divide.
Qed.

(** X10: element [i] of an array member of [n] elements, [0 <= i < n], lies
    at an offset that is a multiple of the element's alignment and ends
    within the structure; so every slot of [extents] and of [files] stays
    inside its block structure. *)
Theorem array_element_within_struct (dm : data_model) (t : ctype) (id : string)
    (elt : ctype) (n i off : Z) :
  field_type t id = Some (Tarray elt n) ->
  element_offset dm t id i = Some off ->
  0 <= i < n ->
  0 <= off /\ (alignof dm elt | off) /\ off + sizeof dm elt <= sizeof dm t.
Proof.
  intros Hty Hel Hi. unfold element_offset in Hel. rewrite Hty in Hel.
  destruct (offsetof dm t id) as [base|] eqn:Hbase; [|discriminate].
  injection Hel as <-.
  destruct t as [| | |elt0 len0|tag fields]; try discriminate.
  cbn [offsetof field_type] in Hbase, Hty.
  destruct (offset_from_spec dm fields 0 id base _ Hbase Hty) as (H0 & Hdiv & Hend).
  cbn [alignof sizeof] in Hdiv, Hend.
  pose proof (sizeof_nonneg dm elt) as Hsz.
  pose proof (align_up_ge
                (foldl place 0
                   (map (fun f => (sizeof dm (snd f), alignof dm (snd f))) fields))
                (alignof dm (Tstruct tag fields))
                (alignof_pos dm (Tstruct tag fields))) as Hup.
  split; [nia|]. split.
  - apply Z.divide_add_r; [exact Hdiv|].
    apply Z.divide_mul_r, sizeof_aligned.
  - cbn [sizeof]. nia.
Qed.

Lemma array_element_within_struct_witness :
  field_type (struct_simplefs_dir_block LP64) "files"
    = Some (Tarray struct_simplefs_file 15) /\
  element_offset LP64 (struct_simplefs_dir_block LP64) "files" 14 = Some 3700 /\
  0 <= 14 < 15 /\
  3700 + sizeof LP64 struct_simplefs_file
    <= sizeof LP64 (struct_simplefs_dir_block LP64).
Proof.
  assert (Hi : 0 <= 14 < 15) by lia.
  split; [reflexivity|]. split; [reflexivity|]. split; [exact Hi|].
  apply (array_element_within_struct LP64 (struct_simplefs_dir_block LP64)
           "files" struct_simplefs_file 15 14 3700); [reflexivity..|exact Hi].
Defined.
